(** * serial_lcd: command encoder and glyph compiler of the Adafruit
      serial-backpack LCD driver (lcd.go), embedded in Rocq.

    Bytes (Go [uint8]/[byte]) are integers of [Z] in [0, 256), with the
    wrap-around of the 8-bit shift written out.  Go strings are byte
    strings ([String.string]); a [range] loop over one decodes UTF-8.
    The serial port behind [LCD] is an [io.ReadWriteCloser]: an interface,
    modelled as a type class over the state of the sink, and every method
    of [LCD] passes that state explicitly. *)

From Stdlib Require Import ZArith Lia Ascii String.
From stdpp Require Import base numbers list strings gmap relations.

Local Open Scope Z_scope.

(** ** Machine types *)

(** Go's [uint8] (alias [byte]) and [rune] (alias [int32]), as integers. *)
Abbreviation uint8 := Z (only parsing).
Abbreviation rune := Z (only parsing).

Definition is_uint8 (b : Z) : Prop := 0 <= b < 256.

(** [[]byte(s)]: the bytes of a Go string. *)
Definition bytes_of_string (s : string) : list uint8 :=
  map (fun a => Z.of_N (N_of_ascii a)) (list_ascii_of_string s).

(** A rune literal such as ['.']. *)
Definition rune_lit (a : ascii) : rune := Z.of_N (N_of_ascii a).

(** ** [for _, c := range line] over a string

    The range clause walks the string by UTF-8 sequences: a byte below
    [RuneSelf] is its own rune; otherwise the runtime's [decoderune]
    decodes a 2, 3 or 4 byte sequence, and on any malformed, overlong,
    surrogate or out-of-range sequence yields [runeError] and advances by
    one byte. *)
Module utf8.

Definition RuneSelf : Z := 0x80.
Definition runeError : rune := 0xFFFD.
Definition maxRune : rune := 0x10FFFF.
Definition surrogateMin : rune := 0xD800.
Definition surrogateMax : rune := 0xDFFF.

Definition t2 : Z := 0xC0.
Definition t3 : Z := 0xE0.
Definition t4 : Z := 0xF0.
Definition t5 : Z := 0xF8.

Definition maskx : Z := 0x3F.
Definition mask2 : Z := 0x1F.
Definition mask3 : Z := 0x0F.
Definition mask4 : Z := 0x07.

Definition rune1Max : rune := 0x7F.
Definition rune2Max : rune := 0x7FF.
Definition rune3Max : rune := 0xFFFF.

Definition locb : Z := 0x80.
Definition hicb : Z := 0xBF.

(** [locb <= b && b <= hicb] *)
Definition cont (b : uint8) : bool := (locb <=? b) && (b <=? hicb).

(** The runes of a byte string, in the order the range loop yields them. *)
Fixpoint runes (s : list uint8) : list rune :=
  match s with
  | [] => []
  | b0 :: s1 =>
    let invalid := runeError :: runes s1 in
    if b0 <? RuneSelf then b0 :: runes s1
    else if (t2 <=? b0) && (b0 <? t3) then
      match s1 with
      | b1 :: s2 =>
        if cont b1 then
          let r := Z.lor (Z.shiftl (Z.land b0 mask2) 6) (Z.land b1 maskx) in
          if rune1Max <? r then r :: runes s2 else invalid
        else invalid
      | _ => invalid
      end
    else if (t3 <=? b0) && (b0 <? t4) then
      match s1 with
      | b1 :: b2 :: s3 =>
        if cont b1 && cont b2 then
          let r := Z.lor (Z.lor (Z.shiftl (Z.land b0 mask3) 12)
                                (Z.shiftl (Z.land b1 maskx) 6))
                         (Z.land b2 maskx) in
          if (rune2Max <? r) && negb ((surrogateMin <=? r) && (r <=? surrogateMax))
          then r :: runes s3 else invalid
        else invalid
      | _ => invalid
      end
    else if (t4 <=? b0) && (b0 <? t5) then
      match s1 with
      | b1 :: b2 :: b3 :: s4 =>
        if cont b1 && cont b2 && cont b3 then
          let r := Z.lor (Z.lor (Z.lor (Z.shiftl (Z.land b0 mask4) 18)
                                       (Z.shiftl (Z.land b1 maskx) 12))
                                (Z.shiftl (Z.land b2 maskx) 6))
                         (Z.land b3 maskx) in
          if (rune3Max <? r) && (r <=? maxRune) then r :: runes s4 else invalid
        else invalid
      | _ => invalid
      end
    else invalid
  end.

End utf8.

(** The characters a range loop sees in [line]. *)
Definition range_string (line : string) : list rune :=
  utf8.runes (bytes_of_string line).

(** ** Glyph compiler (lcd.go, [Char] and [MakeChar]) *)

(** [type Char [8]byte]: the 8 bytes in index order. *)
Abbreviation Char := (list uint8) (only parsing).

(** Body of the inner loop: [pixels = pixels << 1], then
    [if c != '.' && c != ' ' { pixels |= 1 }] on a [byte]. *)
Definition pixel_step (pixels : uint8) (c : rune) : uint8 :=
  let pixels := Z.shiftl pixels 1 mod 256 in
  if negb (c =? rune_lit ".") && negb (c =? rune_lit " ")
  then Z.lor pixels 1
  else pixels.

(** [var pixels byte; for _, c := range line { ... }] *)
Definition line_pixels (line : string) : uint8 :=
  foldl pixel_step 0 (range_string line).

(** [for i, line := range lines { ...; charDef[i] = pixels }], starting from
    the zero value of [Char].  [lines] is a [[8]string]: the type fixes its
    length at 8, so the index never leaves the array. *)
Definition MakeChar (lines : list string) : Char :=
  foldl (fun charDef il => <[fst il := line_pixels (snd il)]> charDef)
        (replicate 8 0)
        (imap pair lines).

(** *** [MakeChar] as a machine

    The same two loops, one transition per loop test: a configuration is the
    place in the code with the values of [i], the rows still to visit,
    [charDef], and inside a row [pixels] and the characters still to scan.
    An execution is any sequence of transitions from the entry of the
    function to its [return]. *)
Inductive MakeChar_state :=
| AtRow (i : nat) (rows : list string) (charDef : list uint8)
| InRow (i : nat) (rows : list string) (charDef : list uint8)
        (pixels : uint8) (chars : list rune)
| Returned (charDef : list uint8).

Inductive MakeChar_step : MakeChar_state -> MakeChar_state -> Prop :=
| step_next_row i line rows charDef :
    (* [for i, line := range lines {] and [var pixels byte] *)
    MakeChar_step (AtRow i (line :: rows) charDef)
                  (InRow i rows charDef 0 (range_string line))
| step_next_char i rows charDef pixels c chars :
    (* [for _, c := range line {] and the body of the inner loop *)
    MakeChar_step (InRow i rows charDef pixels (c :: chars))
                  (InRow i rows charDef (pixel_step pixels c) chars)
| step_store i rows charDef pixels :
    (* the row is used up: [charDef[i] = pixels] *)
    MakeChar_step (InRow i rows charDef pixels [])
                  (AtRow (S i) rows (<[i := pixels]> charDef))
| step_return i charDef :
    (* the rows are used up: [return charDef] *)
    MakeChar_step (AtRow i [] charDef) (Returned charDef).

(** [result] is what some execution of [MakeChar(lines)] returns. *)
Definition MakeChar_runs (lines : list string) (result : list uint8) : Prop :=
  rtc MakeChar_step (AtRow 0 lines (replicate 8 0)) (Returned result).

(** The glyph of the package documentation and of the test tool. *)
Definition heart : list string :=
  [".....";
   ".*.*.";
   "*.*.*";
   "*...*";
   "*...*";
   ".*.*.";
   "..*..";
   "....."]%string.

(** ** The transport ([io.ReadWriteCloser]) *)

(** Go's [error]: [None] is [nil], [Some e] a failure reported by the
    transport. *)
Definition error (Err : Type) : Type := option Err.

(** The interface the driver is layered on.  [W] is the state of the
    device behind the interface value; every call returns the new state
    next to the results of the Go method. *)
Class ReadWriteCloser (Err W : Type) := {
  Write : W -> list uint8 -> W * (Z * error Err);
  Read : W -> nat -> W * (list uint8 * error Err);
  Close : W -> W * error Err
}.

(** An in-memory port: it records the argument of every [Write] call, one
    entry per call, and answers with the next scripted reply (or accepts
    everything once the script is used up). *)
Record FakePort := {
  written : list (list uint8);
  replies : list (Z * error string)
}.

Definition FakePort_Write (p : FakePort) (bs : list uint8)
  : FakePort * (Z * error string) :=
  match replies p with
  | [] => ({| written := written p ++ [bs]; replies := [] |},
           (Z.of_nat (length bs), None))
  | r :: rs => ({| written := written p ++ [bs]; replies := rs |}, r)
  end.

#[export] Instance FakePort_rwc : ReadWriteCloser string FakePort := {
  Write := FakePort_Write;
  Read p _ := (p, ([], None));
  Close p := (p, None)
}.

(** ** Command table (lcd.go, [const] block) *)

Definition COMMAND : uint8 := 0xFE.

Definition BACKLIGHT_ON : uint8 := 0x42.
Definition BACKLIGHT_OFF : uint8 := 0x46.
Definition BRIGHTNESS : uint8 := 0x99.
Definition CONTRAST : uint8 := 0x91.
Definition CLEAR : uint8 := 0x58.

(** [type UnderlineCursorState uint8] and its two siblings. *)
Abbreviation UnderlineCursorState := uint8 (only parsing).
Abbreviation BlockCursorState := uint8 (only parsing).
Abbreviation AutoscrollState := uint8 (only parsing).

Definition AUTOSCROLL_ON : AutoscrollState := 0x51.
Definition AUTOSCROLL_OFF : AutoscrollState := 0x52.

Definition SET_STARTUP_SPLASH : uint8 := 0x40.

Definition SET_CURSOR_POSITION : uint8 := 0x47.
Definition GO_HOME : uint8 := 0x48.
Definition CURSOR_BACK : uint8 := 0x4C.
Definition CURSOR_FORWARD : uint8 := 0x4D.
Definition UNDERLINE_CURSOR_ON : UnderlineCursorState := 0x4A.
Definition UNDERLINE_CURSOR_OFF : UnderlineCursorState := 0x4B.
Definition BLOCK_CURSOR_ON : BlockCursorState := 0x53.
Definition BLOCK_CURSOR_OFF : BlockCursorState := 0x54.

Definition SET_RGB_BACKLIGHT_COLOR : uint8 := 0xD0.
Definition SET_LCD_SIZE : uint8 := 0xD1.
Definition CREATE_CUSTOM_CHARACTER : uint8 := 0x4E.
Definition SAVE_CUSTOM_CHARACTER_TO_EEPROM_BANK : uint8 := 0xC1.
Definition LOAD_CUSTOM_CHARACTERS_FROM_EEPROM_BANK : uint8 := 0xC0.

(** ** Command encoder (lcd.go, methods of [LCD]) *)

(** [type LCD struct{ io.ReadWriteCloser }] *)
Record LCD (W : Type) := mkLCD { port : W }.
Arguments mkLCD {W} _.
Arguments port {W} _.

Section Encoder.
Context {Err W : Type} `{!ReadWriteCloser Err W}.

Definition dropN (n : Z) (e : error Err) : error Err := e.

Definition Raw (l : LCD W) (bytes : list uint8) : LCD W * error Err :=
  let '(w, (n, e)) := Write (port l) bytes in (mkLCD w, dropN n e).

Definition SetBG (l : LCD W) (r g b : uint8) :=
  Raw l [COMMAND; SET_RGB_BACKLIGHT_COLOR; r; g; b].

Definition Off (l : LCD W) := Raw l [COMMAND; BACKLIGHT_OFF].

Definition On (l : LCD W) := Raw l [COMMAND; BACKLIGHT_ON; 0].

Definition SetBrightness (l : LCD W) (b : uint8) :=
  Raw l [COMMAND; BRIGHTNESS; b].

Definition SetContrast (l : LCD W) (c : uint8) :=
  Raw l [COMMAND; CONTRAST; c].

Definition SetAutoscroll (l : LCD W) (a : AutoscrollState) :=
  Raw l [COMMAND; a].

Definition SetSize (l : LCD W) (cols rows : uint8) :=
  Raw l [COMMAND; SET_LCD_SIZE; cols; rows].

Definition Clear (l : LCD W) := Raw l [COMMAND; CLEAR].

Definition SetCursor (l : LCD W) (u : UnderlineCursorState) (b : BlockCursorState) :=
  Raw l [COMMAND; u; COMMAND; b].

Definition Home (l : LCD W) := Raw l [COMMAND; GO_HOME].

Definition MoveTo (l : LCD W) (col row : uint8) :=
  Raw l [COMMAND; SET_CURSOR_POSITION; col; row].

Definition MoveForward (l : LCD W) := Raw l [COMMAND; CURSOR_FORWARD].

Definition MoveBack (l : LCD W) := Raw l [COMMAND; CURSOR_BACK].

Definition CreateCustomChar (l : LCD W) (spot : uint8) (c : Char) :=
  Raw l ([COMMAND; CREATE_CUSTOM_CHARACTER; spot] ++ c).

End Encoder.

(** ** The operations as data

    One constructor per framed method of [LCD], so that a statement can
    range over every operation; [exec_framed] dispatches to the method. *)

Inductive Framed :=
| OpSetBG (r g b : uint8)
| OpOn
| OpOff
| OpSetBrightness (b : uint8)
| OpSetContrast (c : uint8)
| OpSetAutoscroll (a : AutoscrollState)
| OpSetSize (cols rows : uint8)
| OpClear
| OpSetCursor (u : UnderlineCursorState) (b : BlockCursorState)
| OpHome
| OpMoveTo (col row : uint8)
| OpMoveForward
| OpMoveBack
| OpCreateCustomChar (spot : uint8) (c : Char).

Inductive Operation :=
| OpFramed (f : Framed)
| OpRaw (bytes : list uint8).

(** The arguments are values of Go's [uint8], and a [Char] has 8 entries. *)
Definition wf_framed (f : Framed) : Prop :=
  match f with
  | OpSetBG r g b => is_uint8 r /\ is_uint8 g /\ is_uint8 b
  | OpSetBrightness b => is_uint8 b
  | OpSetContrast c => is_uint8 c
  | OpSetAutoscroll a => is_uint8 a
  | OpSetSize cols rows => is_uint8 cols /\ is_uint8 rows
  | OpSetCursor u b => is_uint8 u /\ is_uint8 b
  | OpMoveTo col row => is_uint8 col /\ is_uint8 row
  | OpCreateCustomChar spot c =>
      is_uint8 spot /\ length c = 8%nat /\ Forall is_uint8 c
  | OpOn | OpOff | OpClear | OpHome | OpMoveForward | OpMoveBack => True
  end.

Section Exec.
Context {Err W : Type} `{!ReadWriteCloser Err W}.

Definition exec_framed (f : Framed) (l : LCD W) : LCD W * error Err :=
  match f with
  | OpSetBG r g b => SetBG l r g b
  | OpOn => On l
  | OpOff => Off l
  | OpSetBrightness b => SetBrightness l b
  | OpSetContrast c => SetContrast l c
  | OpSetAutoscroll a => SetAutoscroll l a
  | OpSetSize cols rows => SetSize l cols rows
  | OpClear => Clear l
  | OpSetCursor u b => SetCursor l u b
  | OpHome => Home l
  | OpMoveTo col row => MoveTo l col row
  | OpMoveForward => MoveForward l
  | OpMoveBack => MoveBack l
  | OpCreateCustomChar spot c => CreateCustomChar l spot c
  end.

Definition exec (o : Operation) (l : LCD W) : LCD W * error Err :=
  match o with
  | OpFramed f => exec_framed f l
  | OpRaw bytes => Raw l bytes
  end.

(** What a caller observes of exactly one [Write] call on [bytes]: the
    state the call leaves the port in, and the error it returned. *)
Definition single_write (l : LCD W) (bytes : list uint8) : LCD W * error Err :=
  let r := Write (port l) bytes in (mkLCD (fst r), snd (snd r)).

End Exec.

(** ** The protocol as the specification words it *)

(** A frame: the opcode and its argument bytes. *)
Abbreviation frame := (uint8 * list uint8)%type (only parsing).

(** On the wire a frame is the COMMAND prefix 0xFE, the opcode, then the
    arguments. *)
Definition frame_bytes (f : frame) : list uint8 := 0xFE :: fst f :: snd f.

(** The table of wire encodings: for each operation, its frames in the order
    they are sent.  Every operation is one frame, except "set cursor flags",
    which is two. *)
Definition wire_frames (f : Framed) : list frame :=
  match f with
  | OpSetBG r g b => [(0xD0, [r; g; b])]
  | OpOn => [(0x42, [0x00])]
  | OpOff => [(0x46, [])]
  | OpSetBrightness b => [(0x99, [b])]
  | OpSetContrast c => [(0x91, [c])]
  | OpSetAutoscroll a => [(a, [])]
  | OpSetSize cols rows => [(0xD1, [cols; rows])]
  | OpClear => [(0x58, [])]
  | OpSetCursor u b => [(u, []); (b, [])]
  | OpHome => [(0x48, [])]
  | OpMoveTo col row => [(0x47, [col; row])]
  | OpMoveForward => [(0x4D, [])]
  | OpMoveBack => [(0x4C, [])]
  | OpCreateCustomChar slot glyph => [(0x4E, slot :: glyph)]
  end.

(** The bytes an operation puts on the wire. *)
Definition wire_bytes (o : Operation) : list uint8 :=
  match o with
  | OpFramed f => concat (map frame_bytes (wire_frames f))
  | OpRaw bytes => bytes
  end.

(** A character of a glyph row is "on" when it is neither period nor
    space. *)
Definition pixel_on (c : rune) : bool :=
  negb (c =? rune_lit ".") && negb (c =? rune_lit " ").

(** The glyph algorithm in the specification's words: scan the characters
    left to right; for each one shift the accumulator, a byte, left by one
    bit and set its low bit to 1 if the character is on, else to 0. *)
Definition spec_row_byte (cs : list rune) : uint8 :=
  fold_left (fun acc c => (2 * acc + (if pixel_on c then 1 else 0)) mod 256) cs 0.

(** The behaviour on row lengths as the specification words it, for one
    row: with more than 5 characters, the characters before the last 5 have
    no bit left in the byte, which is then the byte of the last 5 alone;
    with fewer than 5, the low bits, one per missing character, are 0. *)
Definition row_length_claim (line : string) : Prop :=
  let cs := range_string line in
  let n := length cs in
  ((5 < n)%nat -> line_pixels line = foldl pixel_step 0 (drop (n - 5) cs)) /\
  ((n < 5)%nat ->
   forall i : nat, (i < 5 - n)%nat ->
     Z.testbit (line_pixels line) (Z.of_nat i) = false).

(** An empty port whose every write succeeds. *)
Definition fresh_port : FakePort := {| written := []; replies := [] |}.

(** A port whose next write fails with [msg], having accepted [n] bytes. *)
Definition failing_port (n : Z) (msg : string) : FakePort :=
  {| written := []; replies := [(n, Some msg)] |}.

(** ** The test tool (package main: [setup] and [loop])

    The tool discards the error of every call.  [delay] is [time.Sleep]: it
    changes nothing the port sees and is left out. *)

Section TestTool.
Context {Err W : Type} `{!ReadWriteCloser Err W}.

(** [fmt.Fprint(lcd, s)] with one string operand: the text is formatted
    into a buffer and handed over in one [Write] call, whose results
    [Fprint] returns. *)
Definition Fprint (l : LCD W) (s : string) : LCD W * (Z * error Err) :=
  let r := Write (port l) (bytes_of_string s) in (mkLCD (fst r), snd r).

(** The text [" We \x00 Arduino!"]: byte 0 prints custom character 0. *)
Definition we_heart_arduino : string :=
  (" We " ++ String (ascii_of_nat 0) " Arduino!")%string.

Definition setup (lcd : LCD W) : LCD W :=
  let lcd := fst (SetSize lcd 16 2) in
  let lcd := fst (SetContrast lcd 200) in
  let lcd := fst (SetBrightness lcd 255) in
  let lcd := fst (SetCursor lcd UNDERLINE_CURSOR_OFF BLOCK_CURSOR_OFF) in
  let lcd := fst (CreateCustomChar lcd 0 (MakeChar heart)) in
  let lcd := fst (Clear lcd) in
  let lcd := fst (Home lcd) in
  let lcd := fst (Fprint lcd we_heart_arduino) in
  fst (Fprint lcd "     - Adafruit").

(** [for v = 0; v < 255; v++ { body }] on a [byte] counter: [v++] wraps at
    256.  [None] when [fuel] iterations did not reach the end. *)
Fixpoint for_lt_255 (fuel : nat) (v : uint8)
    (body : uint8 -> LCD W -> LCD W) (lcd : LCD W) : option (LCD W) :=
  match fuel with
  | O => if v <? 255 then None else Some lcd
  | S fuel' =>
    if v <? 255
    then for_lt_255 fuel' ((v + 1) mod 256) body (body v lcd)
    else Some lcd
  end.

(** The three colour sweeps; [255-red] is byte arithmetic. *)
Definition loop (fuel : nat) (lcd : LCD W) : option (LCD W) :=
  lcd ← for_lt_255 fuel 0
          (fun red lcd => fst (SetBG lcd red 0 ((255 - red) mod 256))) lcd;
  lcd ← for_lt_255 fuel 0
          (fun green lcd => fst (SetBG lcd ((255 - green) mod 256) green 0)) lcd;
  for_lt_255 fuel 0
    (fun blue lcd => fst (SetBG lcd 0 ((255 - blue) mod 256) blue)) lcd.

End TestTool.

(** ** The web front end (package main of lcd_web: [server.Set] and its helpers)

    [url.Values] is a [map[string][]string].  The request type, its
    [ParseForm], [strconv.ParseUint] and [hexcolor.HexToRGBA] belong to
    other packages and are parameters. *)

Section Web.
Context {Err W : Type} `{!ReadWriteCloser Err W}.
Context {PErr Request : Type}.
Variable ParseForm : Request -> gmap string (list string) * error PErr.
Variable Error_text : PErr -> string.
Variable ParseUint : string -> Z -> Z -> Z * error PErr.
Variable HexToRGBA : string -> Z * Z * Z * Z.

Definition StatusBadRequest : Z := 400.

Definition getText (key : string) (vals : gmap string (list string))
  : string * bool :=
  match vals !! key with
  | Some [v] => (v, true)
  | _ => (EmptyString, false)
  end.

(** [uint8(num)] keeps the low 8 bits. *)
Definition getByte (key : string) (vals : gmap string (list string))
  : uint8 * bool :=
  let '(txt, ok) := getText key vals in
  if ok then
    let '(num, err) := ParseUint txt 10 8 in
    match err with
    | Some _ => (0, false)
    | None => (num mod 256, true)
    end
  else (0, false).

Definition getRGB (vals : gmap string (list string))
  : uint8 * uint8 * uint8 * bool :=
  let '(txt, ok) := getText "background" vals in
  if ok then
    let '(r, g, b, _) := HexToRGBA txt in (r, g, b, true)
  else (0, 0, 0, false).

(** [func (s *server) Set]: the handler of POST /set, on the handle [s.lcd],
    in the version that passes [AUTOSCROLL_ON] or [AUTOSCROLL_OFF].
    The second component is what [http.Error] sent, if it was called. *)
Definition server_Set (lcd : LCD W) (r : Request) : LCD W * option (string * Z) :=
  let '(form, err) := ParseForm r in
  match err with
  | Some e => (lcd, Some (Error_text e, StatusBadRequest))
  | None =>
    let lcd := (let '(b, ok) := getByte "brightness" form in
                if ok then fst (SetBrightness lcd b) else lcd) in
    let lcd := (let '(c, ok) := getByte "contrast" form in
                if ok then fst (SetContrast lcd c) else lcd) in
    let lcd := (let '(r, g, b, ok) := getRGB form in
                if ok then fst (SetBG lcd r g b) else lcd) in
    let lcd := (let '(a, ok) := getText "autoscroll" form in
                if ok then
                  if String.eqb a "true"
                  then fst (SetAutoscroll lcd AUTOSCROLL_ON)
                  else fst (SetAutoscroll lcd AUTOSCROLL_OFF)
                else lcd) in
    let lcd := (match form !! "txt"%string with
                | Some [v] =>
                  let lcd := fst (Clear lcd) in
                  let lcd := fst (Home lcd) in
                  fst (Fprint lcd v)
                | _ => lcd
                end) in
    (lcd, None)
  end.

End Web.

(** Stand-ins for the parameters of the web front end, to run the handler
    on examples: the request is its form, decimal parsing of at most
    [bitSize] bits, and one fixed colour. *)
Fixpoint dec_digits (s : string) (acc : Z) : option Z :=
  match s with
  | EmptyString => Some acc
  | String a s' =>
    let d := Z.of_N (N_of_ascii a) - 48 in
    if (0 <=? d) && (d <=? 9) then dec_digits s' (10 * acc + d) else None
  end.

Definition demo_ParseUint (s : string) (base bitSize : Z) : Z * error string :=
  match s with
  | EmptyString => (0, Some "invalid syntax"%string)
  | _ =>
    match dec_digits s 0 with
    | Some n =>
      if n <? 2 ^ bitSize then (n, None)
      else (2 ^ bitSize - 1, Some "value out of range"%string)
    | None => (0, Some "invalid syntax"%string)
    end
  end.

Definition demo_ParseForm (r : gmap string (list string))
  : gmap string (list string) * error string := (r, None).

Definition demo_HexToRGBA (s : string) : Z * Z * Z * Z := (255, 0, 128, 255).

Definition demo_Set (lcd : LCD FakePort) (r : gmap string (list string))
  : LCD FakePort * option (string * Z) :=
  server_Set demo_ParseForm (fun e => e) demo_ParseUint demo_HexToRGBA lcd r.


Definition demo_form_twice : gmap string (list string) :=
  <["brightness"%string := ["1"; "2"]%string ]>
    (<["txt"%string := ["Hi"%string] ]> ∅).

(** ** Sequences of framed operations *)

(** The states the package declares for the three state types. *)
Definition declared_states (f : Framed) : Prop :=
  match f with
  | OpSetAutoscroll a => a = AUTOSCROLL_ON \/ a = AUTOSCROLL_OFF
  | OpSetCursor u b =>
      (u = UNDERLINE_CURSOR_ON \/ u = UNDERLINE_CURSOR_OFF) /\
      (b = BLOCK_CURSOR_ON \/ b = BLOCK_CURSOR_OFF)
  | _ => True
  end.

(** Issue the operations one after the other on the same handle, as the
    callers of the package do, without looking at the errors. *)
Definition exec_all {Err W : Type} `{!ReadWriteCloser Err W}
    (fs : list Framed) (l : LCD W) : LCD W :=
  foldl (fun l f => fst (exec_framed f l)) l fs.

(** The on/off picture of a pattern: one flag per character of each row. *)
Definition pixel_mask (lines : list string) : list (list bool) :=
  map (fun line => map pixel_on (range_string line)) lines.

(** * Properties of the glyph compiler *)

Lemma lor_even_1 (q : Z) : Z.lor (2 * q) 1 = 2 * q + 1.
Proof.
  assert (Hland : Z.land (2 * q) 1 = 0).
  { change 1 with (Z.ones 1) at 1. rewrite Z.land_ones by lia.
    change (2 ^ 1) with 2. rewrite Z.mul_comm. apply Z.mod_mul. lia. }
  rewrite <- Z.lxor_lor by exact Hland.
  symmetry. apply Z.add_nocarry_lxor. exact Hland.
Qed.

(** The loop body on bytes is "double, add the new bit, keep 8 bits". *)
Lemma pixel_step_arith (p : uint8) (c : rune) :
  pixel_step p c = (2 * p + (if pixel_on c then 1 else 0)) mod 256.
Proof.
  unfold pixel_step, pixel_on.
  rewrite Z.shiftl_mul_pow2 by lia. change (2 ^ 1) with 2.
  replace (p * 2) with (2 * p) by lia.
  destruct (negb (c =? rune_lit ".") && negb (c =? rune_lit " ")).
  - change 256 with (2 * 128).
    rewrite Z.mul_mod_distr_l by lia.
    rewrite lor_even_1.
    apply Z.mod_unique_pos with (q := p / 128).
    + pose proof (Z.mod_pos_bound p 128). lia.
    + pose proof (Z.div_mod p 128). lia.
  - f_equal. lia.
Qed.

Lemma foldl_fold_left {A B} (f : A -> B -> A) (l : list B) (a : A) :
  foldl f a l = fold_left f l a.
Proof. revert a. induction l as [|x l IH]; intros a; simpl; [done | apply IH]. Qed.

Lemma fold_pixel_step (cs : list rune) (acc : uint8) :
  foldl pixel_step acc cs
  = fold_left (fun acc c => (2 * acc + (if pixel_on c then 1 else 0)) mod 256) cs acc.
Proof.
  rewrite foldl_fold_left. revert acc.
  induction cs as [|c cs IH]; intros acc; simpl; [done |].
  rewrite pixel_step_arith. apply IH.
Qed.

(** The embedded inner loop computes the specification's row byte. *)
Lemma line_pixels_spec (line : string) :
  line_pixels line = spec_row_byte (range_string line).
Proof. apply fold_pixel_step. Qed.

(** Writing row [i] into slot [i] for every row fills the array with the
    row bytes in order. *)
Lemma fill_rows (ls : list string) (pre rest : list uint8) :
  length rest = length ls ->
  foldl (fun charDef il => <[fst il := line_pixels (snd il)]> charDef)
        (pre ++ rest)
        (imap (fun i x => ((length pre + i)%nat, x)) ls)
  = pre ++ map line_pixels ls.
Proof.
  revert pre rest.
  induction ls as [|x ls IH]; intros pre rest Hlen.
  - destruct rest; [done | discriminate].
  - destruct rest as [|r rest]; [discriminate |].
    simpl in Hlen. injection Hlen as Hlen.
    cbn [imap foldl fst snd].
    rewrite insert_app_r.
    change (<[0%nat:=line_pixels x]> (r :: rest)) with (line_pixels x :: rest).
    replace (pre ++ line_pixels x :: rest)
      with ((pre ++ [line_pixels x]) ++ rest) by (by rewrite <- app_assoc).
    rewrite (imap_ext _ (fun i y => ((length (pre ++ [line_pixels x]) + i)%nat, y))).
    + rewrite IH by done. by rewrite <- app_assoc.
    + intros i y _. simpl. rewrite length_app. simpl. f_equal. lia.
Qed.

Lemma MakeChar_map (lines : list string) :
  length lines = 8%nat -> MakeChar lines = map line_pixels lines.
Proof.
  intros Hlen. unfold MakeChar.
  pose proof (fill_rows lines [] (replicate 8 0)) as H.
  rewrite length_replicate in H. specialize (H (eq_sym Hlen)).
  exact H.
Qed.

Lemma spec_row_byte_snoc (cs : list rune) (c : rune) :
  spec_row_byte (cs ++ [c])
  = (2 * spec_row_byte cs + Z.b2z (pixel_on c)) mod 256.
Proof. unfold spec_row_byte. rewrite fold_left_app. reflexivity. Qed.

Lemma spec_row_byte_range (cs : list rune) : is_uint8 (spec_row_byte cs).
Proof.
  induction cs as [|c cs _] using rev_ind.
  - unfold is_uint8, spec_row_byte. simpl. lia.
  - rewrite spec_row_byte_snoc. apply Z.mod_pos_bound. lia.
Qed.

(** Bit [i] of a row byte is the character [i] places before the last one;
    it is 0 when the row is too short to have one. *)
Lemma spec_row_byte_bit (cs : list rune) (i : nat) :
  (i < 8)%nat ->
  Z.testbit (spec_row_byte cs) (Z.of_nat i)
  = from_option pixel_on false (rev cs !! i).
Proof.
  revert i. induction cs as [|c cs IH] using rev_ind; intros i Hi.
  - unfold spec_row_byte. simpl. by rewrite Z.testbit_0_l.
  - rewrite spec_row_byte_snoc, rev_unit.
    change 256 with (2 ^ 8). rewrite Z.mod_pow2_bits_low by lia.
    destruct i as [|i].
    + simpl. apply Z.testbit_0_r.
    + rewrite Nat2Z.inj_succ, Z.testbit_succ_r by lia.
      simpl. apply IH. lia.
Qed.

Lemma spec_row_byte_off (cs : list rune) :
  Forall (fun c => pixel_on c = false) cs -> spec_row_byte cs = 0.
Proof.
  induction cs as [|c cs IH] using rev_ind; intros H; [done |].
  apply Forall_app in H as [Hcs Hc]. inversion Hc as [|? ? Hoff _]; subst.
  rewrite spec_row_byte_snoc, IH, Hoff by done. reflexivity.
Qed.

Lemma spec_row_byte_on5 (cs : list rune) :
  length cs = 5%nat -> Forall (fun c => pixel_on c = true) cs ->
  spec_row_byte cs = 0x1F.
Proof.
  intros Hlen Hon.
  destruct cs as [|c1 [|c2 [|c3 [|c4 [|c5 [|? ?]]]]]]; try discriminate.
  repeat match goal with
         | H : Forall _ (_ :: _) |- _ => inversion H; clear H; subst
         end.
  unfold spec_row_byte. simpl.
  repeat match goal with H : pixel_on _ = true |- _ => rewrite H; clear H end.
  reflexivity.
Qed.

Lemma lookup_map {A B} (f : A -> B) (l : list A) (i : nat) :
  map f l !! i = f <$> l !! i.
Proof. revert i. induction l as [|x l IH]; intros [|i]; simpl; auto. Qed.

Lemma MakeChar_length (lines : list string) :
  length lines = 8%nat -> length (MakeChar lines) = 8%nat.
Proof. intros H. rewrite MakeChar_map by done. by rewrite length_map. Qed.

(** [C5] For an 8-row pattern, MakeChar yields for each row, independently
    and in order (row i gives byte i), the byte the specification's scan
    computes from the row's characters: shift the accumulator left one bit
    per character and set the new low bit exactly when the character is
    neither space nor period.  Hence a pattern of "off" markers only
    compiles to 8 zero bytes, and a pattern of "on" markers only, 5 to a
    row, to 8 bytes 0x1F. *)
Theorem MakeChar_rows (lines : list string) :
  length lines = 8%nat ->
  MakeChar lines = map (fun line => spec_row_byte (range_string line)) lines
  /\ (forall (i : nat) (line : string),
        lines !! i = Some line ->
        MakeChar lines !! i = Some (spec_row_byte (range_string line)))
  /\ (Forall (fun line => Forall (fun c => pixel_on c = false) (range_string line))
             lines ->
      MakeChar lines = replicate 8 0)
  /\ (Forall (fun line => length (range_string line) = 5%nat /\
                          Forall (fun c => pixel_on c = true) (range_string line))
             lines ->
      MakeChar lines = replicate 8 0x1F).
Proof.
  intros Hlen.
  assert (Hmap : MakeChar lines
                 = map (fun line => spec_row_byte (range_string line)) lines).
  { rewrite MakeChar_map by done. apply map_ext. apply line_pixels_spec. }
  split; [exact Hmap |]. split; [| split].
  - intros i line Hi. rewrite Hmap.
    by rewrite lookup_map, Hi.
  - intros Hoff. rewrite Hmap, <- Hlen. clear Hlen Hmap.
    induction Hoff as [|line ls Hline _ IH]; [done |].
    simpl. rewrite spec_row_byte_off by done. by rewrite IH.
  - intros Hon. rewrite Hmap, <- Hlen. clear Hlen Hmap.
    induction Hon as [|line ls [Hl5 Hline] _ IH]; [done |].
    simpl. rewrite spec_row_byte_on5 by done. by rewrite IH.
Qed.

Lemma MakeChar_rows_witness :
  MakeChar (replicate 8 "*****"%string) = replicate 8 0x1F.
Proof.
  apply (MakeChar_rows (replicate 8 "*****"%string)); [reflexivity |].
  repeat constructor.
Defined.

(** [C6] (amended) Rows of any length compile without error: an 8-row
    pattern always yields 8 bytes, and bit i (0 <= i < 8) of a row's byte is
    the on/off value of the character i places before the row's last
    character, 0 when the row has no such character.  So in a row longer
    than 5 characters the extra characters push the earlier characters'
    bits out of the low 5 bits, and in a row shorter than 5 the characters
    present fill the low bits and the missing ones leave the bits above them
    zero. *)
Theorem MakeChar_any_row_length (lines : list string) :
  length lines = 8%nat ->
  length (MakeChar lines) = 8%nat /\
  forall (r : nat) (line : string),
    lines !! r = Some line ->
    exists v : uint8,
      MakeChar lines !! r = Some v /\ is_uint8 v /\
      forall i : nat, (i < 8)%nat ->
        Z.testbit v (Z.of_nat i)
        = from_option pixel_on false (rev (range_string line) !! i).
Proof.
  intros Hlen. split; [by apply MakeChar_length |].
  intros r line Hr. exists (spec_row_byte (range_string line)).
  split; [| split].
  - rewrite MakeChar_map by done.
    rewrite lookup_map, Hr. simpl. by rewrite line_pixels_spec.
  - apply spec_row_byte_range.
  - intros i Hi. by apply spec_row_byte_bit.
Qed.

Lemma MakeChar_any_row_length_witness :
  length (MakeChar ["*....."; "*"; "....."; "....."; "....."; "....."; "....."; "....."]%string)
  = 8%nat.
Proof.
  apply (MakeChar_any_row_length
           ["*....."; "*"; "....."; "....."; "....."; "....."; "....."; "....."]%string).
  reflexivity.
Defined.

(** [C6] (as stated) fails: the 6-character row "*....." compiles to 32, the
    bit of its first character still in the byte; the 1-character row "*"
    compiles to 1, its low bit set. *)
Lemma MakeChar_row_length_counterexample :
  MakeChar ["*....."; "*"; "....."; "....."; "....."; "....."; "....."; "....."]%string
  = [32; 1; 0; 0; 0; 0; 0; 0]
  /\ line_pixels "*....." <> line_pixels "......"
  /\ ~ row_length_claim "*....."
  /\ ~ row_length_claim "*".
Proof.
  split; [reflexivity |]. split; [discriminate |]. split.
  - intros [Hlong _]. vm_compute in Hlong.
    specialize (Hlong ltac:(lia)). discriminate.
  - intros [_ Hshort]. specialize (Hshort ltac:(vm_compute; lia) 0%nat).
    vm_compute in Hshort. specialize (Hshort ltac:(lia)). discriminate.
Qed.

Lemma MakeChar_step_deterministic : deterministic MakeChar_step.
Proof.
  intros c c1 c2 H1 H2.
  destruct H1; inversion H2; subst; reflexivity.
Qed.

Lemma Returned_final (r : list uint8) (c : MakeChar_state) :
  ~ MakeChar_step (Returned r) c.
Proof. intros H. inversion H. Qed.

(** Two executions from the same configuration return the same array. *)
Lemma MakeChar_steps_unique (c : MakeChar_state) (r1 r2 : list uint8) :
  rtc MakeChar_step c (Returned r1) -> rtc MakeChar_step c (Returned r2) ->
  r1 = r2.
Proof.
  intros H1. remember (Returned r1) as d eqn:Hd. revert Hd.
  induction H1 as [c | c c' d Hstep _ IH]; intros -> H2.
  - inversion H2 as [| ? c' ? Hstep _]; subst; [done |].
    by apply Returned_final in Hstep.
  - inversion H2 as [| ? c'' ? Hstep' Hrest]; subst.
    + by apply Returned_final in Hstep.
    + rewrite <- (MakeChar_step_deterministic _ _ _ Hstep Hstep') in Hrest.
      by apply IH.
Qed.

(** The inner loop runs to the end of the row and stores its byte. *)
Lemma MakeChar_steps_row (i : nat) (rows : list string) (charDef : list uint8)
    (chars : list rune) (pixels : uint8) :
  rtc MakeChar_step (InRow i rows charDef pixels chars)
      (AtRow (S i) rows (<[i := foldl pixel_step pixels chars]> charDef)).
Proof.
  revert pixels. induction chars as [|c chars IH]; intros pixels; simpl.
  - apply rtc_once. constructor.
  - eapply rtc_l; [constructor | apply IH].
Qed.

(** The outer loop runs to the [return] and leaves what the fold of the
    functional embedding computes. *)
Lemma MakeChar_steps_rows (rows : list string) (i : nat) (charDef : list uint8) :
  rtc MakeChar_step (AtRow i rows charDef)
      (Returned (foldl (fun charDef il => <[fst il := line_pixels (snd il)]> charDef)
                       charDef
                       (imap (fun j line => ((i + j)%nat, line)) rows))).
Proof.
  revert i charDef. induction rows as [|line rows IH]; intros i charDef.
  - simpl. apply rtc_once. constructor.
  - eapply rtc_l; [constructor |].
    etrans; [apply MakeChar_steps_row |].
    cbn [imap foldl fst snd]. rewrite Nat.add_0_r.
    rewrite (imap_ext _ (fun j line => ((S i + j)%nat, line)));
      [apply IH |].
    intros j line' _. simpl. f_equal. lia.
Qed.

Lemma MakeChar_runs_MakeChar (lines : list string) :
  MakeChar_runs lines (MakeChar lines).
Proof. apply (MakeChar_steps_rows lines 0 (replicate 8 0)). Qed.

(** [C9] MakeChar is deterministic: an 8-row pattern has an execution, and
    any two executions of the loops on the same pattern return the same
    array; it has 8 bytes and is the value of the function [MakeChar], so
    the result depends on the pattern alone. *)
Theorem MakeChar_deterministic (lines : list string) :
  length lines = 8%nat ->
  (exists result : list uint8, MakeChar_runs lines result) /\
  (forall r1 r2 : list uint8,
     MakeChar_runs lines r1 -> MakeChar_runs lines r2 ->
     r1 = r2 /\ length r1 = 8%nat /\ r1 = MakeChar lines).
Proof.
  intros Hlen. split; [exists (MakeChar lines); apply MakeChar_runs_MakeChar |].
  intros r1 r2 H1 H2.
  pose proof (MakeChar_steps_unique _ _ _ H1 (MakeChar_runs_MakeChar lines)) as ->.
  pose proof (MakeChar_steps_unique _ _ _ H2 (MakeChar_runs_MakeChar lines)) as ->.
  split; [reflexivity |]. split; [by apply MakeChar_length | reflexivity].
Qed.

Lemma MakeChar_deterministic_witness :
  (exists result : list uint8, MakeChar_runs heart result) /\
  (forall r1 r2 : list uint8,
     MakeChar_runs heart r1 -> MakeChar_runs heart r2 ->
     r1 = r2 /\ length r1 = 8%nat /\ r1 = MakeChar heart).
Proof. apply (MakeChar_deterministic heart). reflexivity. Defined.

Example runes_ascii : range_string ".*. " = [46; 42; 46; 32].
Proof. reflexivity. Qed.

(** Two, three and four byte sequences are one character each; an overlong
    sequence or a stray byte is [runeError], one byte at a time. *)
Example runes_multibyte :
  utf8.runes [0xC3; 0xA9; 0xE2; 0x82; 0xAC; 0xF0; 0x9F; 0x98; 0x80]
  = [0xE9; 0x20AC; 0x1F600].
Proof. reflexivity. Qed.

Example runes_invalid :
  utf8.runes [0xC0; 0x80; 0xFF; 0x2E] = [0xFFFD; 0xFFFD; 0xFFFD; 0x2E].
Proof. reflexivity. Qed.

Example MakeChar_heart : MakeChar heart = [0; 10; 21; 17; 17; 10; 4; 0].
Proof. reflexivity. Qed.

(** * Properties of the command encoder *)

Section EncoderFacts.
Context {Err W : Type} `{!ReadWriteCloser Err W}.

(** [Raw] is one [Write] call on its argument; [dropN] keeps the error. *)
Lemma Raw_single_write (l : LCD W) (bytes : list uint8) :
  Raw l bytes = single_write l bytes.
Proof.
  unfold Raw, single_write, dropN.
  by destruct (Write (port l) bytes) as [w [n e]].
Qed.

(** Every operation is one [Write] call on its wire bytes. *)
Lemma exec_single_write (o : Operation) (l : LCD W) :
  exec o l = single_write l (wire_bytes o).
Proof.
  destruct o as [f | bytes]; [| apply Raw_single_write].
  destruct f; try apply Raw_single_write.
  simpl. unfold CreateCustomChar.
  rewrite Raw_single_write, app_nil_r. reflexivity.
Qed.

Lemma exec_framed_single_write (f : Framed) (l : LCD W) :
  exec_framed f l = single_write l (wire_bytes (OpFramed f)).
Proof. apply (exec_single_write (OpFramed f)). Qed.

Lemma single_write_result (l : LCD W) (bytes : list uint8) w n e :
  Write (port l) bytes = (w, (n, e)) -> single_write l bytes = (mkLCD w, e).
Proof. unfold single_write. by intros ->. Qed.

End EncoderFacts.

(** The in-memory port logs a single write as one entry. *)
Lemma FakePort_single_write (p : FakePort) (bytes : list uint8) :
  written (port (fst (single_write (mkLCD p) bytes))) = written p ++ [bytes].
Proof.
  unfold single_write. simpl. unfold FakePort_Write.
  by destruct (replies p).
Qed.

Lemma wire_bytes_uint8 (f : Framed) :
  wf_framed f -> Forall is_uint8 (wire_bytes (OpFramed f)).
Proof.
  destruct f; simpl; unfold is_uint8; intros Hwf;
    repeat match goal with H : _ /\ _ |- _ => destruct H end;
    repeat (apply Forall_cons; split; [lia |]);
    try (apply Forall_nil; exact I).
  by rewrite app_nil_r.
Qed.

(** [C1] Every framed operation emits the COMMAND prefix 0xFE, then its
    opcode, then the opcode's arguments in the order of the command table
    (for "set cursor flags", followed by its second frame), and hands the
    whole byte sequence to the sink in one write call: what the operation
    returns and leaves behind is what that single call does, and a port that
    logs its write calls logs exactly one, holding all the bytes. *)
Theorem framed_ops_one_write {Err W : Type} `{!ReadWriteCloser Err W}
    (f : Framed) (l : LCD W) :
  wf_framed f ->
  exists (opcode : uint8) (args : list uint8) (more : list frame),
    wire_frames f = (opcode, args) :: more /\
    wire_bytes (OpFramed f)
    = COMMAND :: opcode :: args ++ concat (map frame_bytes more) /\
    Forall is_uint8 (wire_bytes (OpFramed f)) /\
    exec_framed f l = single_write l (wire_bytes (OpFramed f)) /\
    forall p : FakePort,
      written (port (fst (exec_framed f (mkLCD p))))
      = written p ++ [wire_bytes (OpFramed f)].
Proof.
  intros Hwf.
  destruct (wire_frames f) as [|[opcode args] more] eqn:Hframes;
    [by destruct f |].
  exists opcode, args, more. split; [done |]. split.
  { simpl. rewrite Hframes. reflexivity. }
  split; [by apply wire_bytes_uint8 |]. split.
  - apply exec_framed_single_write.
  - intros p.
    rewrite exec_framed_single_write. apply FakePort_single_write.
Qed.

Lemma framed_ops_one_write_witness :
  exists (opcode : uint8) (args : list uint8) (more : list frame),
    wire_frames (OpSetCursor UNDERLINE_CURSOR_OFF BLOCK_CURSOR_OFF)
    = (opcode, args) :: more /\
    wire_bytes (OpFramed (OpSetCursor UNDERLINE_CURSOR_OFF BLOCK_CURSOR_OFF))
    = COMMAND :: opcode :: args ++ concat (map frame_bytes more) /\
    Forall is_uint8
      (wire_bytes (OpFramed (OpSetCursor UNDERLINE_CURSOR_OFF BLOCK_CURSOR_OFF))) /\
    exec_framed (OpSetCursor UNDERLINE_CURSOR_OFF BLOCK_CURSOR_OFF) (mkLCD fresh_port)
    = single_write (mkLCD fresh_port)
        (wire_bytes (OpFramed (OpSetCursor UNDERLINE_CURSOR_OFF BLOCK_CURSOR_OFF))) /\
    forall p : FakePort,
      written (port (fst (exec_framed
                            (OpSetCursor UNDERLINE_CURSOR_OFF BLOCK_CURSOR_OFF)
                            (mkLCD p))))
      = written p
        ++ [wire_bytes (OpFramed (OpSetCursor UNDERLINE_CURSOR_OFF BLOCK_CURSOR_OFF))].
Proof.
  apply (framed_ops_one_write
           (OpSetCursor UNDERLINE_CURSOR_OFF BLOCK_CURSOR_OFF) (mkLCD fresh_port)).
  simpl. unfold is_uint8, UNDERLINE_CURSOR_OFF, BLOCK_CURSOR_OFF. lia.
Defined.

(** [C2] For all bytes r, g, b, SetBG writes exactly the 5 bytes
    0xFE, 0xD0, r, g, b in one call, whatever the values, and returns what
    the sink's write returned. *)
Theorem SetBG_bytes {Err W : Type} `{!ReadWriteCloser Err W}
    (l : LCD W) (r g b : uint8) :
  is_uint8 r -> is_uint8 g -> is_uint8 b ->
  SetBG l r g b = single_write l [0xFE; 0xD0; r; g; b] /\
  length [0xFE; 0xD0; r; g; b] = 5%nat /\
  Forall is_uint8 [0xFE; 0xD0; r; g; b] /\
  snd (SetBG l r g b) = snd (snd (Write (port l) [0xFE; 0xD0; r; g; b])) /\
  forall p : FakePort,
    written (port (fst (SetBG (mkLCD p) r g b)))
    = written p ++ [[0xFE; 0xD0; r; g; b]].
Proof.
  intros Hr Hg Hb.
  assert (Heq : SetBG l r g b = single_write l [0xFE; 0xD0; r; g; b])
    by apply Raw_single_write.
  split; [exact Heq |]. split; [reflexivity |]. split; [| split].
  - apply (wire_bytes_uint8 (OpSetBG r g b)). exact (conj Hr (conj Hg Hb)).
  - by rewrite Heq.
  - intros p. unfold SetBG. rewrite Raw_single_write.
    apply FakePort_single_write.
Qed.

Lemma SetBG_bytes_witness :
  SetBG (mkLCD fresh_port) 100 0 255
  = single_write (mkLCD fresh_port) [0xFE; 0xD0; 100; 0; 255] /\
  length [0xFE; 0xD0; 100; 0; 255] = 5%nat /\
  Forall is_uint8 [0xFE; 0xD0; 100; 0; 255] /\
  snd (SetBG (mkLCD fresh_port) 100 0 255)
  = snd (snd (Write (port (mkLCD fresh_port)) [0xFE; 0xD0; 100; 0; 255])) /\
  forall p : FakePort,
    written (port (fst (SetBG (mkLCD p) 100 0 255)))
    = written p ++ [[0xFE; 0xD0; 100; 0; 255]].
Proof.
  apply (SetBG_bytes (mkLCD fresh_port) 100 0 255); unfold is_uint8; lia.
Defined.

(** [C3] For every underline state u (0x4A or 0x4B) and block state b (0x53
    or 0x54), SetCursor writes in one call the two frames 0xFE u and 0xFE b
    back to back, each with its own prefix and not merged into the single
    frame 0xFE u b; with both cursors off the bytes are
    0xFE, 0x4B, 0xFE, 0x54. *)
Theorem SetCursor_two_frames {Err W : Type} `{!ReadWriteCloser Err W}
    (l : LCD W) (u : UnderlineCursorState) (b : BlockCursorState) :
  u = 0x4A \/ u = 0x4B -> b = 0x53 \/ b = 0x54 ->
  SetCursor l u b = single_write l [0xFE; u; 0xFE; b] /\
  [0xFE; u; 0xFE; b] = frame_bytes (u, []) ++ frame_bytes (b, []) /\
  [0xFE; u; 0xFE; b] <> frame_bytes (u, [b]) /\
  SetCursor l UNDERLINE_CURSOR_OFF BLOCK_CURSOR_OFF
  = single_write l [0xFE; 0x4B; 0xFE; 0x54] /\
  forall p : FakePort,
    written (port (fst (SetCursor (mkLCD p) u b)))
    = written p ++ [[0xFE; u; 0xFE; b]].
Proof.
  intros Hu Hb.
  split; [apply Raw_single_write |]. split; [reflexivity |]. split.
  - unfold frame_bytes. simpl. intros Heq.
    injection Heq as Heq. destruct Hb; subst; discriminate.
  - split; [apply Raw_single_write |].
    intros p. unfold SetCursor. rewrite Raw_single_write.
    apply FakePort_single_write.
Qed.

Lemma SetCursor_two_frames_witness :
  written (port (fst (SetCursor (mkLCD fresh_port)
                                UNDERLINE_CURSOR_OFF BLOCK_CURSOR_OFF)))
  = written fresh_port ++ [[0xFE; 0x4B; 0xFE; 0x54]].
Proof.
  apply (SetCursor_two_frames (mkLCD fresh_port)
                              UNDERLINE_CURSOR_OFF BLOCK_CURSOR_OFF).
  - right. reflexivity.
  - right. reflexivity.
Defined.

(** [C4] (amended) CreateCustomChar with slot 0 and the all-zero glyph
    writes exactly 0xFE, 0x4E, 0x00 and the 8 zero glyph bytes, which is 11
    bytes in total. *)
Theorem CreateCustomChar_zero {Err W : Type} `{!ReadWriteCloser Err W}
    (l : LCD W) :
  CreateCustomChar l 0 [0; 0; 0; 0; 0; 0; 0; 0]
  = single_write l [0xFE; 0x4E; 0x00; 0; 0; 0; 0; 0; 0; 0; 0] /\
  length [0xFE; 0x4E; 0x00; 0; 0; 0; 0; 0; 0; 0; 0] = 11%nat /\
  written (port (fst (CreateCustomChar (mkLCD fresh_port) 0 [0; 0; 0; 0; 0; 0; 0; 0])))
  = [[0xFE; 0x4E; 0x00; 0; 0; 0; 0; 0; 0; 0; 0]].
Proof.
  split; [apply Raw_single_write |]. split; reflexivity.
Qed.

(** [C4] (as stated) fails: the sequence written for slot 0 and the zero
    glyph is the one the claim lists, and it has 11 bytes, not 10. *)
Lemma CreateCustomChar_zero_counterexample :
  ~ exists bytes : list uint8,
      written (port (fst (CreateCustomChar (mkLCD fresh_port) 0
                                           [0; 0; 0; 0; 0; 0; 0; 0])))
      = [bytes] /\
      bytes = [0xFE; 0x4E; 0x00; 0; 0; 0; 0; 0; 0; 0; 0] /\
      length bytes = 10%nat.
Proof.
  intros (bytes & _ & -> & Hlen). discriminate Hlen.
Qed.

(** [C7] Raw hands its bytes to the sink as they are, in one write and with
    nothing added; for the text "Hi" these are the two bytes 72 ('H') and
    105 ('i'). *)
Theorem Raw_verbatim {Err W : Type} `{!ReadWriteCloser Err W}
    (l : LCD W) (bytes : list uint8) :
  Raw l bytes = single_write l bytes /\
  (forall p : FakePort,
     written (port (fst (Raw (mkLCD p) bytes))) = written p ++ [bytes]) /\
  bytes_of_string "Hi" = [rune_lit "H"; rune_lit "i"] /\
  Raw l (bytes_of_string "Hi") = single_write l [72; 105].
Proof.
  split; [apply Raw_single_write |]. split.
  - intros p. rewrite Raw_single_write. apply FakePort_single_write.
  - split; [reflexivity | apply Raw_single_write].
Qed.

(** [C8] Whatever the sink's write returns for the bytes of an operation,
    the operation returns that error value itself: the same failure when
    the write failed, success when it succeeded; the byte count is dropped
    and the sink is left as that one write left it. *)
Theorem exec_propagates_write_result {Err W : Type} `{!ReadWriteCloser Err W}
    (o : Operation) (l : LCD W) (w : W) (n : Z) (e : error Err) :
  Write (port l) (wire_bytes o) = (w, (n, e)) ->
  exec o l = (mkLCD w, e) /\
  (forall err : Err, e = Some err -> snd (exec o l) = Some err) /\
  (e = None -> snd (exec o l) = None).
Proof.
  intros Hw.
  assert (Heq : exec o l = (mkLCD w, e)).
  { rewrite exec_single_write. by apply single_write_result with n. }
  split; [exact Heq |]. rewrite Heq. simpl. split; [| done].
  by intros err ->.
Qed.

Lemma exec_propagates_write_result_witness :
  snd (exec (OpFramed OpClear) (mkLCD (failing_port 1 "EIO"))) = Some "EIO"%string.
Proof.
  apply (exec_propagates_write_result
           (OpFramed OpClear) (mkLCD (failing_port 1 "EIO"))
           {| written := [[0xFE; 0x58]]; replies := [] |} 1 (Some "EIO"%string)).
  - reflexivity.
  - reflexivity.
Defined.

(** [C10] CreateCustomChar does not check the slot: for every slot byte,
    also above 7, and every 8-byte glyph it writes 0xFE, 0x4E, the slot and
    the 8 glyph bytes as they are, and its result is the error value of the
    sink's write, nothing else. *)
Theorem CreateCustomChar_any_slot {Err W : Type} `{!ReadWriteCloser Err W}
    (l : LCD W) (spot : uint8) (c : list uint8) :
  is_uint8 spot -> length c = 8%nat -> Forall is_uint8 c ->
  CreateCustomChar l spot c = single_write l ([0xFE; 0x4E; spot] ++ c) /\
  length ([0xFE; 0x4E; spot] ++ c) = 11%nat /\
  Forall is_uint8 ([0xFE; 0x4E; spot] ++ c) /\
  snd (CreateCustomChar l spot c)
  = snd (snd (Write (port l) ([0xFE; 0x4E; spot] ++ c))) /\
  forall p : FakePort,
    written (port (fst (CreateCustomChar (mkLCD p) spot c)))
    = written p ++ [[0xFE; 0x4E; spot] ++ c].
Proof.
  intros Hspot Hlen Hc.
  assert (Heq : CreateCustomChar l spot c
                = single_write l ([0xFE; 0x4E; spot] ++ c))
    by apply Raw_single_write.
  split; [exact Heq |]. split; [| split; [| split]].
  - rewrite length_app, Hlen. reflexivity.
  - pose proof (wire_bytes_uint8 (OpCreateCustomChar spot c)
                  (conj Hspot (conj Hlen Hc))) as H.
    simpl in H. by rewrite app_nil_r in H.
  - by rewrite Heq.
  - intros p. unfold CreateCustomChar. rewrite Raw_single_write.
    apply FakePort_single_write.
Qed.

Lemma CreateCustomChar_any_slot_witness :
  written (port (fst (CreateCustomChar (mkLCD fresh_port) 200 (MakeChar heart))))
  = written fresh_port ++ [[0xFE; 0x4E; 200] ++ MakeChar heart].
Proof.
  apply (CreateCustomChar_any_slot (mkLCD fresh_port) 200 (MakeChar heart)).
  - unfold is_uint8. lia.
  - reflexivity.
  - vm_compute. repeat constructor; discriminate.
Defined.

(** * Further properties of the glyph compiler *)

Lemma spec_row_byte_lt (cs : list rune) :
  spec_row_byte cs < 2 ^ Z.of_nat (length cs).
Proof.
  induction cs as [|c cs IH] using rev_ind.
  - unfold spec_row_byte. simpl. lia.
  - rewrite spec_row_byte_snoc, length_app. simpl.
    replace (Z.of_nat (length cs + 1)) with (Z.succ (Z.of_nat (length cs))) by lia.
    rewrite Z.pow_succ_r by lia.
    pose proof (spec_row_byte_range cs) as [Hlo _].
    assert (Hb : 0 <= Z.b2z (pixel_on c) <= 1) by (destruct (pixel_on c); simpl; lia).
    pose proof (Z.mod_le (2 * spec_row_byte cs + Z.b2z (pixel_on c)) 256).
    lia.
Qed.

Lemma rev_is_reverse {A} (l : list A) : rev l = reverse l.
Proof. unfold reverse. apply rev_alt. Qed.

(** Character [j] of a row of [n <= 8] characters lands in bit [n - 1 - j]. *)
Lemma spec_row_byte_char (cs : list rune) (j : nat) (c : rune) :
  (length cs <= 8)%nat -> cs !! j = Some c ->
  Z.testbit (spec_row_byte cs) (Z.of_nat (length cs - 1 - j)) = pixel_on c.
Proof.
  intros Hlen Hj.
  pose proof (lookup_lt_Some _ _ _ Hj) as Hlt.
  rewrite spec_row_byte_bit by lia.
  rewrite rev_is_reverse, reverse_lookup by lia.
  replace (length cs - S (length cs - 1 - j))%nat with j by lia.
  by rewrite Hj.
Qed.

(** The row byte is a function of the on/off flags of the row. *)
Lemma spec_row_byte_mask (cs1 cs2 : list rune) :
  map pixel_on cs1 = map pixel_on cs2 -> spec_row_byte cs1 = spec_row_byte cs2.
Proof.
  unfold spec_row_byte. generalize 0 at 2 4 as acc.
  revert cs2. induction cs1 as [|c1 cs1 IH]; intros [|c2 cs2] acc Hm;
    try discriminate; [done |].
  simpl in Hm. injection Hm as Hc Hm. simpl. rewrite Hc. by apply IH.
Qed.

(** Rows of the same length, at most 8, with the same byte have the same
    flags. *)
Lemma spec_row_byte_inj (cs1 cs2 : list rune) :
  length cs1 = length cs2 -> (length cs1 <= 8)%nat ->
  spec_row_byte cs1 = spec_row_byte cs2 ->
  map pixel_on cs1 = map pixel_on cs2.
Proof.
  intros Hlen H8 Heq.
  apply (list_eq_same_length _ _ (length cs1)); [by rewrite length_map | by rewrite length_map |].
  intros j x y Hj Hx Hy.
  rewrite lookup_map in Hx, Hy.
  destruct (cs1 !! j) as [c1|] eqn:H1; [| discriminate].
  destruct (cs2 !! j) as [c2|] eqn:H2; [| discriminate].
  simpl in Hx, Hy. injection Hx as <-. injection Hy as <-.
  rewrite <- (spec_row_byte_char cs1 j c1) by done.
  rewrite <- (spec_row_byte_char cs2 j c2) by (done || lia).
  by rewrite Heq, Hlen.
Qed.

Lemma MakeChar_spec_map (lines : list string) :
  length lines = 8%nat ->
  MakeChar lines = map (fun line => spec_row_byte (range_string line)) lines.
Proof.
  intros Hlen. rewrite MakeChar_map by done.
  apply map_ext. apply line_pixels_spec.
Qed.

(** [X1] In a row of exactly 5 characters, character j (from the left) is
    bit 4 - j of the row's byte and the three high bits are clear: the byte
    is below 32, whatever the other rows look like. *)
Theorem MakeChar_five_columns (lines : list string) (i j : nat)
    (line : string) (c : rune) :
  length lines = 8%nat ->
  lines !! i = Some line ->
  length (range_string line) = 5%nat ->
  range_string line !! j = Some c ->
  exists v : uint8,
    MakeChar lines !! i = Some v /\
    0 <= v < 32 /\
    Z.testbit v (4 - Z.of_nat j) = pixel_on c.
Proof.
  intros Hlen Hi H5 Hj.
  exists (spec_row_byte (range_string line)). split; [| split].
  - rewrite MakeChar_spec_map by done. by rewrite lookup_map, Hi.
  - pose proof (spec_row_byte_range (range_string line)) as [Hlo _].
    pose proof (spec_row_byte_lt (range_string line)) as Hlt.
    rewrite H5 in Hlt. change (2 ^ Z.of_nat 5) with 32 in Hlt. lia.
  - pose proof (lookup_lt_Some _ _ _ Hj) as Hlt.
    rewrite <- (spec_row_byte_char (range_string line) j c) by (done || lia).
    rewrite H5. f_equal. lia.
Qed.

Lemma MakeChar_five_columns_witness :
  exists v : uint8,
    MakeChar heart !! 2%nat = Some v /\
    0 <= v < 32 /\
    Z.testbit v (4 - Z.of_nat 4) = pixel_on (rune_lit "*").
Proof.
  apply (MakeChar_five_columns heart 2 4 "*.*.*" (rune_lit "*")); reflexivity.
Defined.

(** [X2] Two patterns whose rows all have 5 characters compile to the same
    glyph exactly when they have the same on/off picture: the compiler
    loses nothing but the choice of marker characters. *)
Theorem MakeChar_same_glyph_iff_same_picture (lines1 lines2 : list string) :
  length lines1 = 8%nat -> length lines2 = 8%nat ->
  Forall (fun line => length (range_string line) = 5%nat) lines1 ->
  Forall (fun line => length (range_string line) = 5%nat) lines2 ->
  MakeChar lines1 = MakeChar lines2 <-> pixel_mask lines1 = pixel_mask lines2.
Proof.
  intros Hl1 Hl2 H1 H2.
  rewrite !MakeChar_spec_map by done. unfold pixel_mask.
  assert (Hlen : length lines1 = length lines2) by congruence.
  clear Hl1 Hl2. revert lines2 H2 Hlen.
  induction H1 as [|a ls1 Ha _ IH]; intros [|b ls2] H2 Hlen; try discriminate;
    [done |].
  inversion H2 as [|? ? Hb H2']; subst.
  simpl in Hlen. injection Hlen as Hlen.
  specialize (IH ls2 H2' Hlen). simpl. split.
  - intros Heq. injection Heq as Hrow Hrest. f_equal.
    + apply spec_row_byte_inj; [congruence | lia | done].
    + by apply IH.
  - intros Heq. injection Heq as Hrow Hrest. f_equal.
    + by apply spec_row_byte_mask.
    + by apply IH.
Qed.

Lemma MakeChar_same_glyph_iff_same_picture_witness :
  MakeChar heart
  = MakeChar ["     "; " # # "; "# # #"; "#   #"; "#   #"; " # # "; "  #  "; "     "]%string
  <-> pixel_mask heart
      = pixel_mask ["     "; " # # "; "# # #"; "#   #"; "#   #"; " # # "; "  #  "; "     "]%string.
Proof.
  apply (MakeChar_same_glyph_iff_same_picture
           heart
           ["     "; " # # "; "# # #"; "#   #"; "#   #"; " # # "; "  #  "; "     "]%string);
    try reflexivity; repeat constructor.
Defined.

Lemma pixel_on_high (c : rune) : 0x80 <= c -> pixel_on c = true.
Proof.
  intros Hc. unfold pixel_on.
  change (rune_lit ".") with 46. change (rune_lit " ") with 32.
  destruct (Z.eqb_spec c 46); [lia |]. destruct (Z.eqb_spec c 32); [lia | done].
Qed.

(** One step of the range loop: an ASCII byte is its own character;
    otherwise the character is not ASCII and stands for the lead byte and up
    to three more bytes, none of them ASCII. *)
Lemma runes_step (b0 : uint8) (s1 : list uint8) :
  (b0 < 0x80 /\ utf8.runes (b0 :: s1) = b0 :: utf8.runes s1) \/
  (0x80 <= b0 /\
   exists (r : rune) (k : nat),
     utf8.runes (b0 :: s1) = r :: utf8.runes (drop k s1) /\
     0x80 <= r /\ (k <= length s1)%nat /\ Forall (fun b => 0x80 <= b) (take k s1)).
Proof.
  destruct (Z.ltb_spec b0 utf8.RuneSelf) as [Hlt | Hge].
  { left. split; [exact Hlt |]. simpl.
    destruct (Z.ltb_spec b0 utf8.RuneSelf); [done | lia]. }
  right. split; [exact Hge |].
  assert (Hinvalid : exists (r : rune) (k : nat),
             utf8.runeError :: utf8.runes s1 = r :: utf8.runes (drop k s1) /\
             0x80 <= r /\ (k <= length s1)%nat /\
             Forall (fun b => 0x80 <= b) (take k s1)).
  { exists utf8.runeError, 0%nat. rewrite drop_0, take_0.
    repeat split; [done | lia | constructor]. }
  assert (Hcont : forall b, utf8.cont b = true -> 0x80 <= b).
  { intros b Hb. unfold utf8.cont, utf8.locb in Hb.
    apply andb_prop in Hb as [Hb _]. by apply Z.leb_le in Hb. }
  simpl utf8.runes.
  destruct (Z.ltb_spec b0 utf8.RuneSelf) as [| _]; [lia |].
  repeat case_match; try exact Hinvalid;
    repeat match goal with
           | H : _ && _ = true |- _ => apply andb_prop in H as [? ?]
           | H : (_ <? _) = true |- _ => apply Z.ltb_lt in H
           end;
    unfold utf8.rune1Max, utf8.rune2Max, utf8.rune3Max in *.
  - eexists _, 1%nat. simpl. rewrite drop_0, take_0.
    repeat split; [lia | lia |]. repeat constructor; auto.
  - eexists _, 2%nat. simpl. rewrite drop_0, take_0.
    repeat split; [lia | lia |]. repeat constructor; auto.
  - eexists _, 3%nat. simpl. rewrite drop_0, take_0.
    repeat split; [lia | lia |]. repeat constructor; auto.
Qed.

Lemma filter_off_high (s : list uint8) :
  Forall (fun b => 0x80 <= b) s ->
  List.filter (fun c => negb (pixel_on c)) s = [].
Proof.
  induction 1 as [|b s Hb _ IH]; [done |].
  simpl. by rewrite pixel_on_high, IH.
Qed.

Lemma runes_off_markers (n : nat) (s : list uint8) :
  (length s <= n)%nat ->
  List.filter (fun c => negb (pixel_on c)) (utf8.runes s)
  = List.filter (fun c => negb (pixel_on c)) s
  /\ (length (utf8.runes s) <= length s)%nat.
Proof.
  revert s. induction n as [|n IH]; intros [|b0 s1] Hlen; simpl in Hlen;
    try lia; try (split; [reflexivity | simpl; lia]).
  destruct (runes_step b0 s1) as [[_ ->] | [Hb0 (r & k & -> & Hr & Hk & Hhigh)]].
  - destruct (IH s1 ltac:(lia)) as [IHf IHl].
    cbn [List.filter length]. rewrite IHf. split; [done | lia].
  - destruct (IH (drop k s1)) as [IHf IHl]; [rewrite length_drop; lia |].
    rewrite length_drop in IHl.
    cbn [List.filter length]. rewrite !pixel_on_high by done. cbn [negb].
    split; [| lia].
    rewrite IHf.
    pose proof (f_equal (List.filter (fun c => negb (pixel_on c)))
                        (take_drop k s1)) as Hsplit.
    rewrite List.filter_app, (filter_off_high _ Hhigh) in Hsplit.
    exact Hsplit.
Qed.

Lemma runes_of_ascii (s : list uint8) :
  Forall (fun b => b < 0x80) s -> utf8.runes s = s.
Proof.
  induction 1 as [|b s Hb _ IH]; [done |].
  destruct (runes_step b s) as [[_ ->] | [Hge _]]; [by rewrite IH | lia].
Qed.

(** [X3] The characters of a row that count as off pixels are exactly the
    '.' and ' ' bytes of the row, in order: every other byte sequence, be
    it a multi-byte UTF-8 character or malformed, gives on pixels only, and
    never more characters than the row has bytes.  In an ASCII row the
    characters are the bytes. *)
Theorem range_string_off_markers (line : string) :
  List.filter (fun c => negb (pixel_on c)) (range_string line)
  = List.filter (fun c => negb (pixel_on c)) (bytes_of_string line)
  /\ (length (range_string line) <= String.length line)%nat
  /\ (Forall (fun b => b < 0x80) (bytes_of_string line) ->
      range_string line = bytes_of_string line).
Proof.
  unfold range_string.
  destruct (runes_off_markers (length (bytes_of_string line))
                              (bytes_of_string line)) as [Hf Hl]; [done |].
  split; [exact Hf |]. split; [| apply runes_of_ascii].
  replace (String.length line) with (length (bytes_of_string line)); [done |].
  unfold bytes_of_string. rewrite length_map. clear Hf Hl.
  induction line as [|a line IH]; simpl; [done | by rewrite IH].
Qed.

(** [X4] Only the last 8 characters of a row reach its byte: patterns whose
    rows agree, row by row, on the on/off flags of their last 8 characters
    (fewer when a row is shorter) compile to the same glyph. *)
Theorem MakeChar_last_8_characters (lines1 lines2 : list string) :
  length lines1 = 8%nat ->
  Forall2 (fun a b =>
             take 8 (rev (map pixel_on (range_string a)))
             = take 8 (rev (map pixel_on (range_string b))))
          lines1 lines2 ->
  MakeChar lines1 = MakeChar lines2.
Proof.
  intros Hlen HF.
  assert (Hlen2 : length lines2 = 8%nat)
    by (by rewrite <- (Forall2_length _ _ _ HF)).
  rewrite !MakeChar_spec_map by done. clear Hlen Hlen2.
  induction HF as [|a b ls1 ls2 Hab _ IH]; [done |].
  simpl. f_equal; [| exact IH].
  pose proof (spec_row_byte_range (range_string a)) as Ha.
  pose proof (spec_row_byte_range (range_string b)) as Hb.
  unfold is_uint8 in Ha, Hb.
  apply Z.bits_inj'. intros i Hi.
  destruct (Z.lt_ge_cases i 8) as [Hi8 | Hi8].
  - rewrite <- (Z2Nat.id i) by lia.
    rewrite !spec_row_byte_bit by lia.
    assert (Hflag : forall cs : list rune,
               from_option pixel_on false (rev cs !! Z.to_nat i)
               = default false (take 8 (rev (map pixel_on cs)) !! Z.to_nat i)).
    { intros cs. rewrite lookup_take_lt by lia.
      rewrite <- map_rev, lookup_map. by destruct (rev cs !! Z.to_nat i). }
    by rewrite !Hflag, Hab.
  - assert (Hhigh : forall v : Z, 0 <= v < 256 -> Z.testbit v i = false).
    { intros v Hv. destruct (Z.eq_dec v 0) as [-> | Hne];
        [apply Z.testbit_0_l |].
      apply Z.bits_above_log2; [lia |].
      assert (Z.log2 v < 8) by (apply Z.log2_lt_pow2; lia). lia. }
    by rewrite !Hhigh.
Qed.

Lemma MakeChar_last_8_characters_witness :
  MakeChar [".********"; "....."; "....."; "....."; "....."; "....."; "....."; "....."]%string
  = MakeChar ["*********"; "  ..."; "....."; "....."; "....."; "....."; "....."; "....."]%string.
Proof.
  apply (MakeChar_last_8_characters
           [".********"; "....."; "....."; "....."; "....."; "....."; "....."; "....."]%string
           ["*********"; "  ..."; "....."; "....."; "....."; "....."; "....."; "....."]%string);
    [reflexivity |].
  repeat (constructor; [vm_compute; reflexivity |]). constructor.
Defined.

Lemma range_string_off_markers_witness :
  range_string "*.*.*" = bytes_of_string "*.*.*".
Proof.
  apply (range_string_off_markers "*.*.*"). repeat constructor.
Defined.

Lemma MakeChar_uint8 (lines : list string) :
  length lines = 8%nat -> Forall is_uint8 (MakeChar lines).
Proof.
  intros Hlen. rewrite MakeChar_spec_map by done. clear Hlen.
  induction lines as [|line lines IH]; simpl; constructor;
    [apply spec_row_byte_range | exact IH].
Qed.

(** [X5] Whatever the 8 rows of a pattern look like (any lengths, any
    bytes), uploading the compiled glyph to a slot is one write of a
    well-formed frame: 0xFE, 0x4E, the slot and 8 glyph bytes, 11 bytes in
    all, each a byte value. *)
Theorem CreateCustomChar_MakeChar_frame (lines : list string) (spot : uint8)
    (p : FakePort) :
  length lines = 8%nat -> is_uint8 spot ->
  exists glyph : list uint8,
    MakeChar lines = glyph /\
    length glyph = 8%nat /\
    Forall is_uint8 (0xFE :: 0x4E :: spot :: glyph) /\
    written (port (fst (CreateCustomChar (mkLCD p) spot (MakeChar lines))))
    = written p ++ [0xFE :: 0x4E :: spot :: glyph].
Proof.
  intros Hlen Hspot. exists (MakeChar lines).
  split; [done |]. split; [by apply MakeChar_length |]. split.
  - repeat (constructor; [unfold is_uint8; lia |]).
    constructor; [exact Hspot | by apply MakeChar_uint8].
  - unfold CreateCustomChar. rewrite Raw_single_write.
    apply FakePort_single_write.
Qed.

Lemma CreateCustomChar_MakeChar_frame_witness :
  exists glyph : list uint8,
    MakeChar (replicate 8 "*********"%string) = glyph /\
    length glyph = 8%nat /\
    Forall is_uint8 (0xFE :: 0x4E :: 7 :: glyph) /\
    written (port (fst (CreateCustomChar (mkLCD fresh_port) 7
                          (MakeChar (replicate 8 "*********"%string)))))
    = written fresh_port ++ [0xFE :: 0x4E :: 7 :: glyph].
Proof.
  apply (CreateCustomChar_MakeChar_frame
           (replicate 8 "*********"%string) 7 fresh_port);
    [reflexivity | unfold is_uint8; lia].
Defined.

(** * Further properties of the command encoder *)

Lemma wire_bytes_head (f : Framed) :
  exists opcode rest, wire_bytes (OpFramed f) = 0xFE :: opcode :: rest.
Proof. destruct f; simpl; eauto. Qed.

(** No frame sequence of an operation is the beginning of another
    operation's. *)
Lemma wire_bytes_prefix_free (f1 f2 : Framed) (k : list uint8) :
  wf_framed f1 -> wf_framed f2 ->
  declared_states f1 -> declared_states f2 ->
  wire_bytes (OpFramed f2) = wire_bytes (OpFramed f1) ++ k ->
  f1 = f2.
Proof.
  intros Hwf1 Hwf2 Hd1 Hd2 Hk.
  destruct f1, f2; simpl in Hk, Hd1, Hd2;
    unfold AUTOSCROLL_ON, AUTOSCROLL_OFF, UNDERLINE_CURSOR_ON,
      UNDERLINE_CURSOR_OFF, BLOCK_CURSOR_ON, BLOCK_CURSOR_OFF in *;
    repeat match goal with
           | H : _ /\ _ |- _ => destruct H
           | H : _ \/ _ |- _ => destruct H
           end;
    subst; try discriminate Hk;
    try (injection Hk; intros; subst; reflexivity).
  injection Hk as Hspot Hc. subst.
  simpl in Hwf1, Hwf2.
  destruct Hwf1 as (_ & Hl1 & _). destruct Hwf2 as (_ & Hl2 & _).
  rewrite !app_nil_r in Hc.
  assert (Hk0 : k = []).
  { pose proof (f_equal length Hc) as Hl. rewrite length_app in Hl.
    destruct k; [done | simpl in Hl; lia]. }
  subst k. rewrite app_nil_r in Hc. by subst.
Qed.

Lemma exec_all_written (fs : list Framed) (l : LCD FakePort) :
  written (port (exec_all fs l))
  = written (port l) ++ map (fun f => wire_bytes (OpFramed f)) fs.
Proof.
  revert l. induction fs as [|f fs IH]; intros [p]; simpl.
  - by rewrite app_nil_r.
  - unfold exec_all in *. simpl. rewrite IH.
    rewrite exec_framed_single_write, FakePort_single_write.
    by rewrite <- app_assoc.
Qed.

Lemma wire_stream_inj (fs1 fs2 : list Framed) :
  Forall wf_framed fs1 -> Forall declared_states fs1 ->
  Forall wf_framed fs2 -> Forall declared_states fs2 ->
  concat (map (fun f => wire_bytes (OpFramed f)) fs1)
  = concat (map (fun f => wire_bytes (OpFramed f)) fs2) ->
  fs1 = fs2.
Proof.
  intros Hw1 Hd1. revert fs2.
  induction fs1 as [|f1 fs1 IH]; intros [|f2 fs2] Hw2 Hd2 Heq; [done | | |].
  - destruct (wire_bytes_head f2) as (o & rest & Hh).
    cbn [map concat] in Heq. rewrite Hh in Heq. discriminate.
  - destruct (wire_bytes_head f1) as (o & rest & Hh).
    cbn [map concat] in Heq. rewrite Hh in Heq. discriminate.
  - inversion Hw1; inversion Hd1; inversion Hw2; inversion Hd2; subst.
    cbn [map concat] in Heq.
    assert (Hf : f1 = f2).
    { apply app_eq_inv in Heq as [(k & Hk & _) | (k & Hk & _)].
      - symmetry. by apply (wire_bytes_prefix_free f2 f1 k).
      - by apply (wire_bytes_prefix_free f1 f2 k). }
    subst f2. apply app_inv_head in Heq. f_equal. by apply IH.
Qed.

(** [X6] The byte stream determines the commands: if two sequences of
    framed operations, with byte arguments and the declared cursor and
    autoscroll states, put the same bytes on the wire (however the bytes
    are cut into writes), then they are the same sequence of operations. *)
Theorem framed_stream_unambiguous (fs1 fs2 : list Framed) :
  Forall wf_framed fs1 -> Forall declared_states fs1 ->
  Forall wf_framed fs2 -> Forall declared_states fs2 ->
  concat (written (port (exec_all fs1 (mkLCD fresh_port))))
  = concat (written (port (exec_all fs2 (mkLCD fresh_port)))) ->
  fs1 = fs2.
Proof.
  intros Hw1 Hd1 Hw2 Hd2. rewrite !exec_all_written. simpl.
  by apply wire_stream_inj.
Qed.
Lemma framed_stream_unambiguous_witness :
  [OpClear; OpHome; OpMoveTo 8 2] = [OpClear; OpHome; OpMoveTo 8 2].
Proof.
  apply (framed_stream_unambiguous
           [OpClear; OpHome; OpMoveTo 8 2] [OpClear; OpHome; OpMoveTo 8 2]);
    try reflexivity;
    repeat constructor; unfold is_uint8; lia.
Defined.

(** With a state the package does not declare the stream is ambiguous:
    the state types are plain bytes, and state 0x58 is the Clear frame. *)
Example SetAutoscroll_undeclared_state :
  written (port (fst (SetAutoscroll (mkLCD fresh_port) CLEAR)))
  = written (port (fst (Clear (mkLCD fresh_port)))).
Proof. reflexivity. Qed.

(** * Properties of the test tool *)

Lemma Raw_written (l : LCD FakePort) (bytes : list uint8) :
  written (port (fst (Raw l bytes))) = written (port l) ++ [bytes].
Proof. destruct l as [p]. rewrite Raw_single_write. apply FakePort_single_write. Qed.

Lemma Fprint_written (l : LCD FakePort) (s : string) :
  written (port (fst (Fprint l s))) = written (port l) ++ [bytes_of_string s].
Proof.
  destruct l as [p]. unfold Fprint. simpl. unfold FakePort_Write.
  by destruct (replies p).
Qed.

(** [X7] setup does not look at any error: whatever the port answers, it
    performs the same 9 writes in the same order, namely the size,
    contrast, brightness and cursor frames, the upload of the heart into
    slot 0, clear, home, and the two texts, the first of which prints
    slot 0 through its byte 0. *)
Theorem setup_writes (p : FakePort) :
  written (port (setup (mkLCD p)))
  = written p ++
    [ [0xFE; 0xD1; 16; 2];
      [0xFE; 0x91; 200];
      [0xFE; 0x99; 255];
      [0xFE; 0x4B; 0xFE; 0x54];
      [0xFE; 0x4E; 0; 0; 10; 21; 17; 17; 10; 4; 0];
      [0xFE; 0x58];
      [0xFE; 0x48];
      [32; 87; 101; 32; 0; 32; 65; 114; 100; 117; 105; 110; 111; 33];
      bytes_of_string "     - Adafruit" ].
Proof.
  unfold setup. cbv zeta.
  rewrite !Fprint_written.
  unfold Home, Clear, CreateCustomChar, SetCursor, SetBrightness, SetContrast,
    SetSize.
  rewrite !Raw_written. simpl port.
  rewrite <- !app_assoc. reflexivity.
Qed.

Lemma for_lt_255_foldl {Err W : Type} `{!ReadWriteCloser Err W}
    (fuel : nat) (v : uint8) (body : uint8 -> LCD W -> LCD W) (l : LCD W) :
  0 <= v <= 255 -> (Z.to_nat (255 - v) <= fuel)%nat ->
  for_lt_255 fuel v body l
  = Some (foldl (fun l k => body k l) l (seqZ v (255 - v))).
Proof.
  revert v l. induction fuel as [|fuel IH]; intros v l Hv Hfuel.
  - assert (v = 255) as -> by lia. reflexivity.
  - simpl. destruct (Z.ltb_spec v 255) as [Hlt | Hge].
    + rewrite Z.mod_small by lia. rewrite IH by lia.
      rewrite (seqZ_cons v (255 - v)) by lia. simpl.
      do 3 f_equal. lia.
    + assert (v = 255) as -> by lia. reflexivity.
Qed.

Lemma mbind_Some {A B} (f : A -> option B) (x : A) : Some x ≫= f = f x.
Proof. reflexivity. Qed.

Lemma SetBG_sweep_written (f g h : Z -> uint8) (ks : list Z) (l : LCD FakePort) :
  written (port (foldl (fun l k => fst (SetBG l (f k) (g k) (h k))) l ks))
  = written (port l) ++ map (fun k => [0xFE; 0xD0; f k; g k; h k]) ks.
Proof.
  revert l. induction ks as [|k ks IH]; intros l; simpl.
  - by rewrite app_nil_r.
  - rewrite IH. unfold SetBG. rewrite Raw_written. by rewrite <- app_assoc.
Qed.

Lemma map_seqZ_ext {B} (f g : Z -> B) (m n : Z) :
  (forall k, m <= k < m + n -> f k = g k) ->
  map f (seqZ m n) = map g (seqZ m n).
Proof.
  intros H. apply map_ext_in. intros k Hk.
  apply H. apply list_elem_of_In in Hk. apply elem_of_seqZ in Hk. lia.
Qed.

(** [X8] loop terminates: 255 iterations of fuel are enough for each of the
    three sweeps, the byte counter never wraps, and nothing stops the loop,
    not even a failing port.  It performs 765 writes, each one a colour
    frame 0xFE, 0xD0, r, g, b whose components are byte values with
    r + g + b = 255, fading blue to red, red to green and green to blue. *)
Theorem loop_writes (fuel : nat) (p : FakePort) :
  (255 <= fuel)%nat ->
  exists lcd : LCD FakePort,
    loop fuel (mkLCD p) = Some lcd /\
    written (port lcd)
    = written p
      ++ map (fun k => [0xFE; 0xD0; k; 0; 255 - k]) (seqZ 0 255)
      ++ map (fun k => [0xFE; 0xD0; 255 - k; k; 0]) (seqZ 0 255)
      ++ map (fun k => [0xFE; 0xD0; 0; 255 - k; k]) (seqZ 0 255) /\
    length (written (port lcd)) = (length (written p) + 765)%nat /\
    Forall (fun bytes =>
              exists r g b : uint8,
                bytes = [0xFE; 0xD0; r; g; b] /\
                is_uint8 r /\ is_uint8 g /\ is_uint8 b /\ r + g + b = 255)
           (drop (length (written p)) (written (port lcd))).
Proof.
  intros Hfuel. unfold loop.
  rewrite for_lt_255_foldl by lia. rewrite mbind_Some.
  rewrite for_lt_255_foldl by lia. rewrite mbind_Some.
  rewrite for_lt_255_foldl by lia.
  eexists. split; [reflexivity |].
  change (255 - 0) with 255.
  rewrite (SetBG_sweep_written (fun _ => 0) (fun k => (255 - k) mod 256) (fun k => k)).
  rewrite (SetBG_sweep_written (fun k => (255 - k) mod 256) (fun k => k) (fun _ => 0)).
  rewrite (SetBG_sweep_written (fun k => k) (fun _ => 0) (fun k => (255 - k) mod 256)).
  simpl port.
  rewrite (map_seqZ_ext (fun k => [0xFE; 0xD0; k; 0; (255 - k) mod 256])
                        (fun k => [0xFE; 0xD0; k; 0; 255 - k]))
    by (intros k Hk; rewrite Z.mod_small by lia; reflexivity).
  rewrite (map_seqZ_ext (fun k => [0xFE; 0xD0; (255 - k) mod 256; k; 0])
                        (fun k => [0xFE; 0xD0; 255 - k; k; 0]))
    by (intros k Hk; rewrite Z.mod_small by lia; reflexivity).
  rewrite (map_seqZ_ext (fun k => [0xFE; 0xD0; 0; (255 - k) mod 256; k])
                        (fun k => [0xFE; 0xD0; 0; 255 - k; k]))
    by (intros k Hk; rewrite Z.mod_small by lia; reflexivity).
  rewrite <- !app_assoc. split; [reflexivity |]. split.
  - rewrite !length_app, !length_map, !length_seqZ. lia.
  - rewrite drop_app_length.
    rewrite !Forall_app. repeat split;
      apply Forall_forall; intros bytes Hin;
      apply list_elem_of_In, in_map_iff in Hin as (k & <- & Hk);
      apply list_elem_of_In, elem_of_seqZ in Hk;
      eexists _, _, _; (split; [reflexivity |]); unfold is_uint8; lia.
Qed.

Lemma loop_writes_witness :
  exists lcd : LCD FakePort,
    loop 255 (mkLCD (failing_port 0 "EIO")) = Some lcd /\
    written (port lcd)
    = written (failing_port 0 "EIO")
      ++ map (fun k => [0xFE; 0xD0; k; 0; 255 - k]) (seqZ 0 255)
      ++ map (fun k => [0xFE; 0xD0; 255 - k; k; 0]) (seqZ 0 255)
      ++ map (fun k => [0xFE; 0xD0; 0; 255 - k; k]) (seqZ 0 255) /\
    length (written (port lcd))
    = (length (written (failing_port 0 "EIO")) + 765)%nat /\
    Forall (fun bytes =>
              exists r g b : uint8,
                bytes = [0xFE; 0xD0; r; g; b] /\
                is_uint8 r /\ is_uint8 g /\ is_uint8 b /\ r + g + b = 255)
           (drop (length (written (failing_port 0 "EIO"))) (written (port lcd))).
Proof.
  apply (loop_writes 255 (failing_port 0 "EIO")). lia.
Defined.

(** * Properties of the web front end *)

Section WebFacts.
Context {PErr Request : Type}.
Variable ParseForm : Request -> gmap string (list string) * error PErr.
Variable Error_text : PErr -> string.
Variable ParseUint : string -> Z -> Z -> Z * error PErr.
Variable HexToRGBA : string -> Z * Z * Z * Z.

(** A key with no value or with several values reads like a missing key. *)
Lemma lookup_single_delete {B} (key k : string)
    (form : gmap string (list string)) (vs : list string) (f : string -> B) (d : B) :
  form !! key = Some vs -> length vs <> 1%nat ->
  match delete key form !! k with Some [v] => f v | _ => d end
  = match form !! k with Some [v] => f v | _ => d end.
Proof.
  intros Hkey Hvs. destruct (decide (key = k)) as [<- | Hne].
  - rewrite lookup_delete_eq, Hkey. by destruct vs as [|v [|]].
  - by rewrite lookup_delete_ne.
Qed.


(** [X10] A field given no value or more than once is ignored as if it were
    absent: the handler does the same on the form with that key removed. *)
Theorem server_Set_repeated_field {Err W : Type} `{!ReadWriteCloser Err W}
    (lcd : LCD W) (r1 r2 : Request)
    (form : gmap string (list string)) (key : string) (vs : list string) :
  ParseForm r1 = (form, None) ->
  ParseForm r2 = (delete key form, None) ->
  form !! key = Some vs -> length vs <> 1%nat ->
  server_Set ParseForm Error_text ParseUint HexToRGBA lcd r1
  = server_Set ParseForm Error_text ParseUint HexToRGBA lcd r2.
Proof.
  intros H1 H2 Hkey Hvs.
  unfold server_Set, getByte, getRGB, getText. rewrite H1, H2.
  by rewrite !(lookup_single_delete key _ form vs).
Qed.

(** [X11] The handler leaves the display alone in two cases: when the form
    does not parse, where it answers 400 with the text of the error, and
    when none of its five fields has exactly one value, where it answers
    nothing. *)
Theorem server_Set_untouched {Err W : Type} `{!ReadWriteCloser Err W}
    (lcd : LCD W) (r : Request) (form : gmap string (list string))
    (err : error PErr) :
  ParseForm r = (form, err) ->
  (forall key : string,
     key ∈ ["brightness"; "contrast"; "background"; "autoscroll"; "txt"]%string ->
     forall v : string, form !! key <> Some [v]) \/ err <> None ->
  server_Set ParseForm Error_text ParseUint HexToRGBA lcd r
  = (lcd, match err with
          | Some e => Some (Error_text e, 400)
          | None => None
          end).
Proof.
  intros Hparse Hcase. unfold server_Set. rewrite Hparse.
  destruct err as [e|]; [reflexivity |].
  destruct Hcase as [Hnone | Hne]; [| done].
  assert (Hmiss : forall (B : Type) (key : string) (f : string -> B) (d : B),
             key ∈ ["brightness"; "contrast"; "background"; "autoscroll"; "txt"]%string ->
             match form !! key with Some [v] => f v | _ => d end = d).
  { intros B key f d Hin. specialize (Hnone key Hin).
    destruct (form !! key) as [[|v [|]]|]; try done. by destruct (Hnone v). }
  unfold getByte, getRGB, getText.
  rewrite !Hmiss by set_solver. reflexivity.
Qed.

End WebFacts.


Lemma server_Set_repeated_field_witness :
  demo_Set (mkLCD fresh_port) demo_form_twice
  = demo_Set (mkLCD fresh_port) (delete "brightness"%string demo_form_twice).
Proof.
  apply (server_Set_repeated_field demo_ParseForm (fun e => e) demo_ParseUint
           demo_HexToRGBA (mkLCD fresh_port) demo_form_twice
           (delete "brightness"%string demo_form_twice)
           demo_form_twice "brightness" ["1"; "2"]%string);
    [reflexivity | reflexivity | reflexivity | simpl; lia].
Defined.

Lemma server_Set_untouched_witness :
  demo_Set (mkLCD fresh_port) ∅ = (mkLCD fresh_port, None).
Proof.
  apply (server_Set_untouched demo_ParseForm (fun e => e) demo_ParseUint
           demo_HexToRGBA (mkLCD fresh_port) ∅ ∅ None); [reflexivity |].
  left. intros key _ v. rewrite lookup_empty. discriminate.
Defined.

(** [X12] The encoder keeps no state between operations: in a sequence of
    framed operations on one handle, each operation makes exactly the one
    write it makes on a fresh port, whatever was sent before and whatever
    the port answered (failures included). *)
Theorem exec_all_stateless (fs : list Framed) (p : FakePort) :
  written (port (exec_all fs (mkLCD p)))
  = written p
    ++ concat (map (fun f => written (port (fst (exec_framed f (mkLCD fresh_port)))))
                   fs).
Proof.
  rewrite exec_all_written. simpl port. f_equal.
  induction fs as [|f fs IH]; [done |].
  cbn [map concat]. rewrite <- IH.
  by rewrite exec_framed_single_write, FakePort_single_write.
Qed.
